(** * mock_server.py: signaling session, synthetic audio source and
    transcription emitter

    A shallow embedding of [src/server/mock_server.py].

    - Python integers are [Z]; readings of [time.time()] and the delays
      computed from them are rationals ([Q]), so that the pacing
      arithmetic of [recv] is exact; the audio samples are IEEE binary64
      values (primitive floats), as numpy computes them.
    - The objects of aiohttp, aiortc, asyncio and PyAV are opaque: every
      call the program makes into them is appended to a log, and an
      oracle says, from the log so far, whether the call raises.
    - The event loop runs one thing at a time for a session: a message
      of the socket through the loop body, a callback of the peer
      connection, a turn of a transcription task. Each is handled to its
      end before the next; the [await]s inside one are not points where
      another may run.
    - [print] diagnostics are not modelled. *)

From Stdlib Require Import ZArith QArith Qround Lqa Floats Ascii String List Lia.
From stdpp Require Import base option strings list gmap pretty.
Import ListNotations.

Set Warnings "-register-all,-inexact-float".

#[local] Open Scope string_scope.
#[local] Open Scope list_scope.
#[local] Open Scope Z_scope.

(** ** Module constants *)

(** [int(x)] on a non-integer number: truncation toward zero. *)
Definition py_int (q : Q) : Z := Z.quot (Qnum q) (Zpos (Qden q)).

Definition SAMPLE_RATE : Z := 48000.
Definition FRAME_DURATION : Q := 0.02.
Definition SAMPLES_PER_FRAME : Z :=
  py_int (inject_Z SAMPLE_RATE * FRAME_DURATION).

Definition TRANSCRIPTION_SAMPLES : list string :=
  [ "Patient presents with mild respiratory symptoms.";
    "Blood pressure reading: 120/80 mmHg, within normal range.";
    "Heart rate is 72 bpm, rhythm appears regular.";
    "Oxygen saturation at 98% on room air.";
    "No signs of acute distress observed.";
    "Lung auscultation reveals clear bilateral breath sounds.";
    "Temperature is 98.6°F, afebrile.";
    "Patient reports no allergies to medications." ].

(** ** JSON values, as [json.loads] returns them and [send_json] takes them *)

Inductive json :=
| JNull
| JBool (b : bool)
| JNum (q : Q)
| JStr (s : string)
| JArr (l : list json)
| JObj (m : gmap string json).

(** [data.get(key)] and [data.get(key, default)]: only a dict has [get];
    on any other value the attribute lookup raises [AttributeError]. *)
Definition dict_get (data : json) (key : string) (dflt : json)
  : option json :=
  match data with
  | JObj m => Some (default dflt (m !! key))
  | _ => None
  end.

(** [data[key]] on a dict: [None] stands for the [KeyError] of a
    missing key. *)
Definition dict_item (data : json) (key : string) : option json :=
  match data with
  | JObj m => m !! key
  | _ => None
  end.

(** [value == s] for a string literal [s]. *)
Definition eq_str (value : json) (s : string) : bool :=
  match value with
  | JStr t => String.eqb t s
  | _ => false
  end.

(** Truth value of a JSON value in an [if]. *)
Definition truthy (value : json) : bool :=
  match value with
  | JNull => false
  | JBool b => b
  | JNum q => negb (Qeq_bool q 0)
  | JStr s => negb (String.eqb s "")
  | JArr l => match l with [] => false | _ => true end
  | JObj m => negb (bool_decide (m = ∅))
  end.

(** ** SyntheticAudioTrack *)

Record SyntheticAudioTrack := {
  _timestamp : Z;
  _start : Q;
}.

(** [__init__], at clock reading [now]. *)
Definition SyntheticAudioTrack_init (now : Q) : SyntheticAudioTrack :=
  {| _timestamp := 0; _start := now |}.

Record AudioFrame := {
  format : string;
  layout : string;
  samples : Z;
  sample_rate : Z;
  pts : Z;
  plane0 : list Z;      (* the bytes of [planes[0]] *)
}.

(** The delay computed at the head of [recv]. *)
Definition recv_wait (self : SyntheticAudioTrack) (now : Q) : Q :=
  let elapsed := (now - _start self)%Q in
  let expected := (inject_Z (_timestamp self) / inject_Z SAMPLE_RATE)%Q in
  (expected - elapsed)%Q.

(** [np.arange(n) + offset] *)
Definition arange_plus (n offset : Z) : list Z :=
  (λ i, i + offset) <$> seqZ 0 n.

(** Truncation of a binary64 value toward zero; 0 stands in for the
    values (infinities, NaN) on which the conversion is not defined. *)
Definition float_trunc (x : float) : Z :=
  match Prim2SF x with
  | S754_finite s m e =>
      let a := match e with
               | Zneg p => Z.pos m / 2 ^ Z.pos p
               | _ => Z.pos m * 2 ^ e
               end in
      if s then - a else a
  | _ => 0
  end.

(** [astype(np.int16)]: truncate, keep the low 16 bits, read them signed. *)
Definition astype_int16 (x : float) : Z :=
  (float_trunc x + 32768) mod 65536 - 32768.

(** [tobytes()] of one int16, little endian. *)
Definition int16_bytes (v : Z) : list Z :=
  let u := v mod 65536 in [u mod 256; u / 256].

Definition tobytes (vs : list Z) : list Z := vs ≫= int16_bytes.



Section Audio.
(** [np.sin] on one binary64 value. *)
Variable np_sin : float → float.

Definition math_pi : float := 3.141592653589793%float.

(** Conversion of an int64 sample index (never negative here) to binary64. *)
Definition float_of_index (t : Z) : float :=
  PrimFloat.of_uint63 (Uint63.of_Z t).

(** One element of
    [(np.sin(2 * math.pi * 440 * t / SAMPLE_RATE) * 32767 * 0.3).astype(np.int16)]. *)
Definition sample_at (t : Z) : Z :=
  let phase :=
    (2 * math_pi * 440 * float_of_index t / float_of_index SAMPLE_RATE)%float in
  astype_int16 (np_sin phase * 32767 * 0.3)%float.

(** [recv]: the delay to sleep when it is positive, the frame, and the
    updated track. *)
Definition recv (self : SyntheticAudioTrack) (now : Q)
  : option Q * AudioFrame * SyntheticAudioTrack :=
  let wait := recv_wait self now in
  let slept := if Qlt_le_dec 0 wait then Some wait else None in
  let t := arange_plus SAMPLES_PER_FRAME (_timestamp self) in
  let smpls := sample_at <$> t in
  let frame := {| format := "s16"; layout := "mono";
                  samples := SAMPLES_PER_FRAME;
                  sample_rate := SAMPLE_RATE;
                  pts := _timestamp self;
                  plane0 := tobytes smpls |} in
  (slept, frame,
   {| _timestamp := _timestamp self + SAMPLES_PER_FRAME;
      _start := _start self |}).

(** Successive calls of [recv], one per clock reading. *)
Fixpoint recv_many (self : SyntheticAudioTrack) (nows : list Q)
  : list AudioFrame :=
  match nows with
  | [] => []
  | now :: rest =>
      let '(_, frame, self') := recv self now in
      frame :: recv_many self' rest
  end.

Fixpoint track_after (self : SyntheticAudioTrack) (nows : list Q)
  : SyntheticAudioTrack :=
  match nows with
  | [] => self
  | now :: rest => track_after (recv self now).2 rest
  end.


End Audio.

(** ** The signaling session *)

(** [aiohttp.WSMsgType] *)
Inductive WSMsgType :=
| CONTINUATION | TEXT | BINARY | PING | PONG | CLOSE | CLOSING | CLOSED | ERROR.

(** A message of the socket. [data] is what [json.loads(msg.data)] gives
    on the payload: [None] when it raises [JSONDecodeError]. *)
Record WSMessage := {
  type : WSMsgType;
  data : option json;
}.

(** Calls into aiohttp, aiortc, asyncio and [os], in the order made. *)
Inductive call :=
| ws_prepare
| RTCPeerConnection_new
| makedirs (path : string)                  (* [exist_ok=True] *)
| setRemoteDescription (sdp : json)         (* of [RTCSessionDescription(sdp, "offer")] *)
| pc_addTrack (audio_track : SyntheticAudioTrack)
| createAnswer
| setLocalDescription
| send_json (msg : json)
| create_task (handle : nat)                (* of [send_transcriptions()] *)
| RTCIceCandidate_new (sdpMid sdpMLineIndex candidate : json)
| addIceCandidate
| MediaRecorder_new (path : string)
| recorder_addTrack (kind : string)
| recorder_start
| recorder_stop
| task_cancel (handle : nat)
| asyncio_sleep (delay : Z)
| pc_close.

Inductive exn :=
| JSONDecodeError
| AttributeError
| KeyError (key : string)
| LibraryError (c : call).

(** What the libraries answer: whether a call raises, given the calls
    made before it, and the SDP of [pc.localDescription]. The log grows
    with every call, so any succession of answers in a run is that of
    some [library]. *)
Record library := {
  raises : list call → call → bool;
  localDescription_sdp : list call → string;
}.

(** The coroutine [send_transcriptions], as an asyncio task: its cursor,
    whether a cancellation was requested and not yet delivered, and
    whether it has finished ([task.done()]). *)
Record task := {
  idx : nat;
  cancelling : bool;
  finished : bool;
}.

Inductive handler_status :=
| Receiving               (* in the [async for] loop *)
| Returned                (* [return ws] reached *)
| Raised (e : exn).       (* left by an exception *)

(** The local variables of [websocket_handler] that its closures share,
    the tasks it created (a handle is a position in [tasks]) and the
    calls made so far. *)
Record session := {
  recording_path : string;
  recorder : option string;          (* [None], or the recorder of that path *)
  transcription_task : option nat;   (* [None], or a task handle *)
  tasks : list task;
  log : list call;
  status : handler_status;
}.

Definition set_recorder (r : option string) (s : session) : session :=
  {| recording_path := recording_path s; recorder := r;
     transcription_task := transcription_task s; tasks := tasks s;
     log := log s; status := status s |}.

Definition set_transcription_task (t : option nat) (s : session) : session :=
  {| recording_path := recording_path s; recorder := recorder s;
     transcription_task := t; tasks := tasks s;
     log := log s; status := status s |}.

Definition set_tasks (ts : list task) (s : session) : session :=
  {| recording_path := recording_path s; recorder := recorder s;
     transcription_task := transcription_task s; tasks := ts;
     log := log s; status := status s |}.

Definition set_log (l : list call) (s : session) : session :=
  {| recording_path := recording_path s; recorder := recorder s;
     transcription_task := transcription_task s; tasks := tasks s;
     log := l; status := status s |}.

Definition set_status (st : handler_status) (s : session) : session :=
  {| recording_path := recording_path s; recorder := recorder s;
     transcription_task := transcription_task s; tasks := tasks s;
     log := log s; status := st |}.

(** *** A state and exception monad

    A computation runs on the session and either returns or raises; what
    it did to the session before raising stays done. *)

Inductive result (A : Type) :=
| Ok (a : A)
| Exc (e : exn).
Arguments Ok {A} a.
Arguments Exc {A} e.

Definition M (A : Type) : Type := session → result A * session.

Definition ret {A} (a : A) : M A := λ s, (Ok a, s).

Definition bind {A B} (m : M A) (k : A → M B) : M B :=
  λ s, match m s with
       | (Ok a, s') => k a s'
       | (Exc e, s') => (Exc e, s')
       end.

Definition raise {A} (e : exn) : M A := λ s, (Exc e, s).

(** [try: m except Exception: pass] *)
Definition try_except (m : M unit) : M unit :=
  λ s, match m s with
       | (_, s') => (Ok tt, s')
       end.

Definition get_session : M session := λ s, (Ok s, s).
Definition modify (f : session → session) : M unit := λ s, (Ok tt, f s).

Notation "x <- m ;; k" := (bind m (λ x, k))
  (at level 100, m at next level, right associativity).
Notation "m ;; k" := (bind m (λ _, k))
  (at level 100, right associativity).

(** [when b: m] *)
Definition when (b : bool) (m : M unit) : M unit :=
  if b then m else ret tt.

(** [x = o], raising [e] when [o] has no value. *)
Definition from_option {A} (e : exn) (o : option A) : M A :=
  match o with
  | Some a => ret a
  | None => raise e
  end.

(** *** Paths *)

Fixpoint ends_with_slash (a : string) : bool :=
  match a with
  | EmptyString => false
  | String c EmptyString => Ascii.eqb c "/"%char
  | String _ rest => ends_with_slash rest
  end.

Definition starts_with_slash (b : string) : bool :=
  match b with
  | String c _ => Ascii.eqb c "/"%char
  | EmptyString => false
  end.

(** [os.path.join(a, b)] (POSIX) *)
Definition path_join (a b : string) : string :=
  if starts_with_slash b then b
  else if String.eqb a "" || ends_with_slash a then a +:+ b
  else a +:+ "/" +:+ b.

(** [here] is [os.path.dirname(__file__)]. *)
Definition recordings_dir (here : string) : string :=
  path_join here "recordings".

(** The recording path of a session started at clock reading [now]. *)
Definition recording_path_at (here : string) (now : Q) : string :=
  path_join (recordings_dir here)
            ("recording_" +:+ pretty (py_int now) +:+ ".mp4").

(** *** The handler and its closures *)

(** The message [send_transcriptions] builds at cursor [i]. *)
Definition transcription_text (i : nat) : string :=
  default "" (TRANSCRIPTION_SAMPLES !! (i mod length TRANSCRIPTION_SAMPLES)%nat).

Definition transcription_msg (i : nat) (now : Q) : json :=
  JObj (<["type" := JStr "transcription"]>
       (<["text" := JStr (transcription_text i)]>
       (<["timestamp" := JNum now]> ∅))).

Definition answer_msg (sdp : string) : json :=
  JObj (<["type" := JStr "answer"]> (<["sdp" := JStr sdp]> ∅)).

Definition new_task : task :=
  {| idx := 0; cancelling := false; finished := false |}.

(** [task.done()] *)
Definition task_done (s : session) (h : nat) : bool :=
  match tasks s !! h with
  | Some t => finished t
  | None => true
  end.

Definition request_cancel (t : task) : task :=
  if finished t then t
  else {| idx := idx t; cancelling := true; finished := false |}.

Definition finish_task (t : task) : task :=
  {| idx := idx t; cancelling := false; finished := true |}.

Definition advance_task (t : task) : task :=
  {| idx := S (idx t); cancelling := cancelling t; finished := finished t |}.

Definition set_task (h : nat) (t : task) (s : session) : session :=
  set_tasks (<[h := t]> (tasks s)) s.

Inductive loop_ctl := Continue | Break.

Section Handler.
Variable lib : library.

(** A call into a library: logged, then it returns or raises. *)
Definition do_call (c : call) : M unit :=
  λ s, let s' := set_log (log s ++ [c]) s in
       if raises lib (log s) c then (Exc (LibraryError c), s') else (Ok tt, s').

(** [transcription_task.cancel()]; it does not raise. *)
Definition cancel (h : nat) : M unit :=
  modify (λ s, set_tasks (alter request_cancel h (tasks s))
                 (set_log (log s ++ [task_cancel h]) s)).

(** [if transcription_task and not transcription_task.done():
        transcription_task.cancel()] *)
Definition cancel_transcription_task : M unit :=
  s <- get_session ;;
  match transcription_task s with
  | Some h => when (negb (task_done s h)) (cancel h)
  | None => ret tt
  end.

(** [transcription_task = asyncio.create_task(send_transcriptions())] *)
Definition start_transcription_task : M unit :=
  s <- get_session ;;
  let h := length (tasks s) in
  do_call (create_task h) ;;
  modify (λ s, set_transcription_task (Some h)
                 (set_tasks (tasks s ++ [new_task]) s)).

(** [on_connectionstatechange], with [pc.connectionState = state]. *)
Definition on_connectionstatechange (state : string) : M unit :=
  when (String.eqb state "failed" || String.eqb state "closed")
    (s <- get_session ;;
     when (bool_decide (is_Some (recorder s))) (do_call recorder_stop) ;;
     cancel_transcription_task).

(** [on_track(track)], with [track.kind = kind]. *)
Definition on_track (kind : string) : M unit :=
  s <- get_session ;;
  when (bool_decide (recorder s = None))
    (do_call (MediaRecorder_new (recording_path s)) ;;
     modify (set_recorder (Some (recording_path s)))) ;;
  do_call (recorder_addTrack kind) ;;
  when (String.eqb kind "video") (do_call recorder_start).

(** The [offer] branch of the loop body; [now] is the clock reading that
    [SyntheticAudioTrack()] takes. *)
Definition on_offer (now : Q) (d : json) : M unit :=
  sdp <- from_option (KeyError "sdp") (dict_item d "sdp") ;;
  do_call (setRemoteDescription sdp) ;;
  let audio_track := SyntheticAudioTrack_init now in
  do_call (pc_addTrack audio_track) ;;
  do_call createAnswer ;;
  do_call setLocalDescription ;;
  s <- get_session ;;
  do_call (send_json (answer_msg (localDescription_sdp lib (log s)))) ;;
  start_transcription_task.

(** The [candidate] branch of the loop body. *)
Definition on_candidate (d : json) : M unit :=
  candidate_str <- from_option AttributeError (dict_get d "candidate" (JStr "")) ;;
  sdp_mid <- from_option AttributeError (dict_get d "sdpMid" (JStr "")) ;;
  sdp_mline_index <- from_option AttributeError (dict_get d "sdpMLineIndex" (JNum 0)) ;;
  when (truthy candidate_str)
    (do_call (RTCIceCandidate_new sdp_mid sdp_mline_index candidate_str) ;;
     do_call addIceCandidate).

(** The body of [async for msg in ws]. *)
Definition loop_body (now : Q) (msg : WSMessage) : M loop_ctl :=
  match type msg with
  | TEXT =>
      d <- from_option JSONDecodeError (data msg) ;;
      msg_type <- from_option AttributeError (dict_get d "type" JNull) ;;
      (if eq_str msg_type "offer" then on_offer now d
       else if eq_str msg_type "candidate" then on_candidate d
       else ret tt) ;;
      ret Continue
  | CLOSE | CLOSING | CLOSED => ret Break
  | ERROR => ret Break
  | _ => ret Continue
  end.

(** The statements after the loop ("Cleanup on disconnect"). *)
Definition cleanup : M unit :=
  cancel_transcription_task ;;
  s <- get_session ;;
  when (bool_decide (is_Some (recorder s))) (try_except (do_call recorder_stop)) ;;
  do_call pc_close.

(** The handler leaves: by [return ws] or by the exception raised. *)
Definition leave (r : result unit * session) : session :=
  match r with
  | (Ok _, s) => set_status Returned s
  | (Exc e, s) => set_status (Raised e) s
  end.

(** The statements before the loop, on a connection accepted at clock
    reading [now] by the script of directory [here]. *)
Definition websocket_handler_start (here : string) (now : Q) : session :=
  let s0 := {| recording_path := recording_path_at here now;
               recorder := None; transcription_task := None;
               tasks := []; log := []; status := Receiving |} in
  match (do_call ws_prepare ;;
         do_call RTCPeerConnection_new ;;
         do_call (makedirs (recordings_dir here))) s0 with
  | (Ok _, s) => s
  | (Exc e, s) => set_status (Raised e) s
  end.

(** One turn of the [while True] of [send_transcriptions] in task [h],
    from the end of its sleep, at clock reading [now]. A task whose
    cancellation was requested does not resume from the sleep. *)
Definition send_transcriptions_turn (h : nat) (now : Q) (s : session)
  : session :=
  match tasks s !! h with
  | Some t =>
      if finished t || cancelling t then s
      else
        match do_call (asyncio_sleep 3) s with
        | (Exc _, s1) => set_task h (finish_task t) s1
        | (Ok _, s1) =>
            match do_call (send_json (transcription_msg (idx t) now)) s1 with
            | (Exc _, s2) => set_task h (finish_task t) s2     (* [break] *)
            | (Ok _, s2) => set_task h (advance_task t) s2     (* [idx += 1] *)
            end
        end
  | None => s
  end.

(** The [CancelledError] reaches task [h]: [except asyncio.CancelledError: pass]. *)
Definition deliver_cancel (h : nat) (s : session) : session :=
  match tasks s !! h with
  | Some t => if cancelling t && negb (finished t)
              then set_task h (finish_task t) s else s
  | None => s
  end.

(** What the event loop runs next for this session. *)
Inductive event :=
| ws_message (now : Q) (msg : WSMessage)     (* the loop receives [msg] *)
| ws_end                                     (* the socket iterator is exhausted *)
| connectionstatechange (state : string)
| track (kind : string)
| task_turn (h : nat) (now : Q)
| task_cancelled (h : nat).

Definition is_turn_of (h : nat) (e : event) : bool :=
  match e with
  | task_turn h' _ => bool_decide (h' = h)
  | _ => false
  end.

(** The clock readings of the turns of task [h] among the events [es]. *)
Fixpoint turn_times (h : nat) (es : list event) : list Q :=
  match es with
  | [] => []
  | task_turn h' now :: rest =>
      if bool_decide (h' = h) then now :: turn_times h rest
      else turn_times h rest
  | _ :: rest => turn_times h rest
  end.

(** A task that does not run on: it has finished, or its cancellation
    was requested. *)
Definition resting (t : task) : bool := finished t || cancelling t.

Definition step (s : session) (e : event) : session :=
  match e with
  | ws_message now msg =>
      match status s with
      | Receiving =>
          match loop_body now msg s with
          | (Ok Continue, s') => s'
          | (Ok Break, s') => leave (cleanup s')
          | (Exc e, s') => set_status (Raised e) s'
          end
      | _ => s
      end
  | ws_end =>
      match status s with
      | Receiving => leave (cleanup s)
      | _ => s
      end
  | connectionstatechange state => (on_connectionstatechange state s).2
  | track kind => (on_track kind s).2
  | task_turn h now => send_transcriptions_turn h now s
  | task_cancelled h => deliver_cancel h s
  end.

Definition run (s : session) (es : list event) : session :=
  foldl step s es.

(** The calls made while [e] is handled in [s]. *)
Definition new_calls (s : session) (e : event) : list call :=
  drop (length (log s)) (log (step s e)).

(** The calls made by the turns of task [h] while the events [es] are
    handled from [s]. *)
Fixpoint task_calls (h : nat) (s : session) (es : list event) : list call :=
  match es with
  | [] => []
  | e :: rest =>
      (if is_turn_of h e then new_calls s e else [])
        ++ task_calls h (step s e) rest
  end.

End Handler.

(** *** Reading the log *)

Definition count_calls (p : call → bool) (l : list call) : nat :=
  length (List.filter p l).

Definition is_recorder_stop (c : call) : bool :=
  match c with recorder_stop => true | _ => false end.

Definition is_task_cancel (c : call) : bool :=
  match c with task_cancel _ => true | _ => false end.

Definition is_pc_close (c : call) : bool :=
  match c with pc_close => true | _ => false end.

(** [msg["text"]] of a message that has one. *)
Definition msg_text (msg : json) : option string :=
  match dict_item msg "text" with
  | Some (JStr text) => Some text
  | _ => None
  end.

Definition is_answer (c : call) : bool :=
  match c with
  | send_json msg =>
      match dict_item msg "type" with
      | Some v => eq_str v "answer"
      | None => false
      end
  | _ => false
  end.

(** None of the calls [cs], made in this order after the calls [hist],
    raises. *)
Fixpoint accepts (lib : library) (hist cs : list call) : Prop :=
  match cs with
  | [] => True
  | c :: rest => raises lib hist c = false ∧ accepts lib (hist ++ [c]) rest
  end.


(** The calls of successive turns of a transcription task whose cursor
    is [i], one turn per clock reading. *)
Fixpoint emitter_calls (i : nat) (nows : list Q) : list call :=
  match nows with
  | [] => []
  | now :: rest =>
      asyncio_sleep 3 :: send_json (transcription_msg i now)
        :: emitter_calls (S i) rest
  end.



(** A text message that is neither an offer nor a candidate, or a
    message that is neither text, close nor error. *)
Definition other_message (msg : WSMessage) : Prop :=
  match type msg with
  | TEXT => ∃ m, data msg = Some (JObj m)
                 ∧ m !! "type" ≠ Some (JStr "offer")
                 ∧ m !! "type" ≠ Some (JStr "candidate")
  | CLOSE | CLOSING | CLOSED | ERROR => False
  | _ => True
  end.

(** A text message on which the loop body raises [e] before any call:
    a payload that is not JSON, JSON that is not an object, an offer
    with no [sdp]. *)
Definition malformed (msg : WSMessage) (e : exn) : Prop :=
  type msg = TEXT ∧
  ( (data msg = None ∧ e = JSONDecodeError)
    ∨ (∃ d, data msg = Some d ∧ (∀ m, d ≠ JObj m) ∧ e = AttributeError)
    ∨ (∃ m, data msg = Some (JObj m)
            ∧ m !! "type" = Some (JStr "offer")
            ∧ m !! "sdp" = None ∧ e = KeyError "sdp") ).


(** *** More readings of the log and of the events *)

(** A call of a method of the recorder. *)
Definition is_recorder_method (c : call) : bool :=
  match c with
  | recorder_addTrack _ | recorder_start | recorder_stop => true
  | _ => false
  end.

Definition is_recorder_start (c : call) : bool :=
  match c with recorder_start => true | _ => false end.

(** A call that tears something down. *)
Definition is_teardown_call (c : call) : bool :=
  is_recorder_stop c || is_task_cancel c || is_pc_close c.

(** A sent message whose [type] is ["transcription"]. *)
Definition is_transcription (c : call) : bool :=
  match c with
  | send_json msg =>
      match dict_item msg "type" with
      | Some v => eq_str v "transcription"
      | None => false
      end
  | _ => false
  end.

(** A track event of kind ["video"]. *)
Definition is_video_track (e : event) : bool :=
  match e with
  | track kind => String.eqb kind "video"
  | _ => false
  end.

(** A text message whose payload is an object of [type] ["offer"]. *)
Definition is_offer_event (e : event) : bool :=
  match e with
  | ws_message _ msg =>
      match type msg with
      | TEXT =>
          match data msg with
          | Some d =>
              match dict_get d "type" JNull with
              | Some v => eq_str v "offer"
              | None => false
              end
          | None => false
          end
      | _ => false
      end
  | _ => false
  end.

(** The end of the receive loop: a close or error message, or the end of
    the socket iterator. *)
Definition is_loop_exit (e : event) : bool :=
  match e with
  | ws_message _ msg =>
      match type msg with
      | CLOSE | CLOSING | CLOSED | ERROR => true
      | _ => false
      end
  | ws_end => true
  | _ => false
  end.

(** The calls of [if recorder: recorder.stop()] and of
    [if transcription_task and not transcription_task.done():
    transcription_task.cancel()] in a session [s]. *)
Definition stop_calls (s : session) : list call :=
  match recorder s with
  | Some _ => [recorder_stop]
  | None => []
  end.

Definition cancel_calls (s : session) : list call :=
  match transcription_task s with
  | Some h => if task_done s h then [] else [task_cancel h]
  | None => []
  end.

Definition is_recorder_new (c : call) : bool :=
  match c with MediaRecorder_new _ => true | _ => false end.

(** The handle of the task created last. *)
Definition last_handle (ts : list task) : option nat :=
  match length ts with
  | O => None
  | S n => Some n
  end.

(** The three fields of a candidate message, with the defaults of
    [data.get]. *)
Definition candidate_field (m : gmap string json) : json :=
  default (JStr "") (m !! "candidate").
Definition sdpMid_field (m : gmap string json) : json :=
  default (JStr "") (m !! "sdpMid").
Definition sdpMLineIndex_field (m : gmap string json) : json :=
  default (JNum 0) (m !! "sdpMLineIndex").

(** The calls that forward a candidate to the peer connection. *)
Definition candidate_calls (m : gmap string json) : list call :=
  [ RTCIceCandidate_new (sdpMid_field m) (sdpMLineIndex_field m)
      (candidate_field m);
    addIceCandidate ].


(** What holds of the recorder between accept and teardown: while the
    variable [recorder] is [None] no method of a recorder was called,
    and a recorder there is was created on the recording path. *)
Definition recorder_inv (s : session) : Prop :=
  (recorder s = None → count_calls is_recorder_method (log s) = 0%nat)
  ∧ (∀ path, recorder s = Some path →
       path = recording_path s ∧ MediaRecorder_new path ∈ log s).

Definition video_tracks (es : list event) : nat :=
  length (List.filter is_video_track es).

Definition offers (es : list event) : nat :=
  length (List.filter is_offer_event es).

(** What holds of the tasks: the variable [transcription_task] is the
    task created last, there are no more tasks than answers sent, and no
    transcription was sent while there is no task. *)
Definition tasks_inv (s : session) : Prop :=
  transcription_task s = last_handle (tasks s)
  ∧ (length (tasks s) ≤ count_calls is_answer (log s))%nat
  ∧ (length (tasks s) = 0%nat →
     count_calls is_transcription (log s) = 0%nat).

(** *** A library in which no call raises, and some messages *)

Definition obliging : library :=
  {| raises := λ _ _, false; localDescription_sdp := λ _, "v=0" |}.

(** A library in which the calls that satisfy [p] raise, whenever made. *)
Definition raising (p : call → bool) : library :=
  {| raises := λ _ c, p c; localDescription_sdp := λ _, "v=0" |}.

Definition is_addIceCandidate (c : call) : bool :=
  match c with addIceCandidate => true | _ => false end.


Definition text_message (fields : list (string * json)) : WSMessage :=
  {| type := TEXT; data := Some (JObj (list_to_map fields)) |}.

Definition offer_message : WSMessage :=
  text_message [("type", JStr "offer"); ("sdp", JStr "v=0")].

Definition candidate_message : WSMessage :=
  text_message [("type", JStr "candidate");
                ("candidate", JStr "candidate:1 1 udp 1 192.0.2.1 9 typ host");
                ("sdpMid", JStr "0"); ("sdpMLineIndex", JNum 0)].

Definition unparsable_message : WSMessage :=
  {| type := TEXT; data := None |}.

Definition close_message : WSMessage :=
  {| type := CLOSE; data := None |}.

(** * Properties *)


(** The binary64 product [48000 * 0.02] that Python evaluates is exactly 960. *)
Remark SAMPLES_PER_FRAME_binary64 :
  float_trunc (48000 * 0.02)%float = SAMPLES_PER_FRAME.
Proof. vm_compute. reflexivity. Qed.

(** * The synthetic audio source *)

Section AudioFacts.
Variable np_sin : float → float.

Lemma recv_timestamp self now :
  _timestamp (recv np_sin self now).2 = _timestamp self + 960.
Proof. reflexivity. Qed.

Lemma recv_start self now :
  _start (recv np_sin self now).2 = _start self.
Proof. reflexivity. Qed.

Lemma recv_pts self now :
  pts (recv np_sin self now).1.2 = _timestamp self.
Proof. reflexivity. Qed.

Lemma recv_many_cons self now rest :
  recv_many np_sin self (now :: rest) =
  (recv np_sin self now).1.2 :: recv_many np_sin (recv np_sin self now).2 rest.
Proof. reflexivity. Qed.

Lemma length_recv_many self nows :
  length (recv_many np_sin self nows) = length nows.
Proof.
  revert self. induction nows as [|now rest IH]; intros self; [done|].
  rewrite recv_many_cons. simpl. by rewrite IH.
Qed.

(** The frame of the [n]-th call is the one [recv] makes on the track
    reached after [n] calls. *)
Lemma recv_many_lookup self nows n now :
  nows !! n = Some now →
  recv_many np_sin self nows !! n =
  Some (recv np_sin (track_after np_sin self (take n nows)) now).1.2.
Proof.
  revert self n. induction nows as [|now0 rest IH]; intros self n Hn; [done|].
  rewrite recv_many_cons. destruct n as [|n].
  - by injection Hn as ->.
  - simpl in Hn. apply (IH (recv np_sin self now0).2) in Hn. exact Hn.
Qed.

Lemma track_after_timestamp self nows :
  _timestamp (track_after np_sin self nows) =
  _timestamp self + Z.of_nat (length nows) * 960.
Proof.
  revert self. induction nows as [|now rest IH]; intros self.
  - simpl. lia.
  - change (track_after np_sin self (now :: rest))
      with (track_after np_sin (recv np_sin self now).2 rest).
    rewrite IH, recv_timestamp. simpl length. lia.
Qed.


(** C3: the frame of the [n]-th call of [recv] on a new track (counting
    from 0) exists and carries the timestamp [n * 960]: timestamps start
    at 0 and grow by the frame size at every call, whatever the clock
    readings are. *)
Theorem pts_nth_frame (start : Q) (nows : list Q) (n : nat) :
  (n < length nows)%nat →
  ∃ frame,
    recv_many np_sin (SyntheticAudioTrack_init start) nows !! n = Some frame
    ∧ pts frame = Z.of_nat n * 960
    ∧ SAMPLES_PER_FRAME = 960.
Proof.
  intros Hn. destruct (lookup_lt_is_Some_2 nows n Hn) as [now Hnow].
  eexists. split; [by apply recv_many_lookup|]. split; [|done].
  rewrite recv_pts, track_after_timestamp, length_take. simpl. lia.
Qed.

End AudioFacts.

Lemma pts_nth_frame_witness :
  ∃ frame,
    recv_many (λ x, x) (SyntheticAudioTrack_init 0) [0%Q; 0%Q; 1%Q] !! 2%nat
      = Some frame
    ∧ pts frame = 2 * 960
    ∧ SAMPLES_PER_FRAME = 960.
Proof. apply (pts_nth_frame (λ x, x) 0 [0%Q; 0%Q; 1%Q] 2). simpl. lia. Defined.

Section Pacing.
Variable np_sin : float → float.




End Pacing.


(** ** The samples of a frame *)

Lemma length_tobytes vs : length (tobytes vs) = (2 * length vs)%nat.
Proof.
  unfold tobytes. induction vs as [|v vs IH]; [done|].
  rewrite bind_cons, length_app, IH. simpl. lia.
Qed.






Section Samples.
Variable np_sin : float → float.



End Samples.


(** * The receive loop, one message at a time *)

Lemma eq_str_true v s : eq_str v s = true ↔ v = JStr s.
Proof.
  destruct v; simpl; try (split; [discriminate|congruence]).
  rewrite String.eqb_eq. split; congruence.
Qed.

Lemma eq_str_false v s : v ≠ JStr s → eq_str v s = false.
Proof.
  intros Hv. destruct (eq_str v s) eqn:E; [|done].
  by apply eq_str_true in E.
Qed.

Section LoopBody.
Variable lib : library.


(** C7: a candidate message whose [candidate] is the empty string, or
    which has no [candidate] at all, leaves the session as it was: no
    call is made (none into the ICE layer), nothing is raised, the loop
    goes on. *)
Theorem candidate_without_string_ignored (s : session) (now : Q)
    (m : gmap string json) :
  m !! "type" = Some (JStr "candidate") →
  m !! "candidate" = None ∨ m !! "candidate" = Some (JStr "") →
  step lib s (ws_message now {| type := TEXT; data := Some (JObj m) |}) = s.
Proof.
  intros Htype Hcand. unfold step. destruct (status s); try done.
  unfold loop_body, on_candidate, bind, from_option, dict_get. simpl.
  rewrite Htype. simpl.
  by destruct Hcand as [-> | ->].
Qed.

(** C10: a text message whose [type] is neither [offer] nor [candidate]
    (or is absent), and a message that is neither text, close nor error
    (binary, ping, ...), leave the session as it was: no call is made and
    the loop goes on. *)
Theorem other_message_ignored (s : session) (now : Q) (msg : WSMessage) :
  other_message msg →
  step lib s (ws_message now msg) = s.
Proof.
  unfold other_message, step. intros Hmsg. destruct (status s); try done.
  unfold loop_body. destruct msg as [ty d]; simpl in *.
  destruct ty; try done.
  destruct Hmsg as (m & -> & Hoffer & Hcand).
  unfold bind, from_option, dict_get. simpl.
  rewrite !eq_str_false; [done| |].
  - destruct (m !! "type") as [v|]; simpl; congruence.
  - destruct (m !! "type") as [v|]; simpl; congruence.
Qed.

(** C2, as the program has it: a text message that is not JSON, that is
    JSON but not an object, or that is an offer without [sdp] makes no
    call, and the exception it raises ends the handler where it stands,
    without the cleanup; no later message or end of the socket is
    handled. *)
Theorem malformed_message_ends_handler (s : session) (now : Q)
    (msg : WSMessage) (e : exn) :
  status s = Receiving →
  malformed msg e →
  step lib s (ws_message now msg) = set_status (Raised e) s
  ∧ (∀ now' msg',
       step lib (set_status (Raised e) s) (ws_message now' msg')
       = set_status (Raised e) s)
  ∧ step lib (set_status (Raised e) s) ws_end = set_status (Raised e) s.
Proof.
  intros Hst [Hty Hmsg]. split; [|done].
  unfold step. rewrite Hst. unfold loop_body. rewrite Hty.
  destruct Hmsg as [[-> ->] | [(d & -> & Hd & ->) | (m & -> & Htype & Hsdp & ->)]].
  - done.
  - unfold bind, from_option. simpl.
    destruct d; try done. by destruct (Hd m).
  - unfold bind, from_option, dict_get, on_offer, dict_item. simpl.
    rewrite Htype. simpl. unfold bind, from_option. by rewrite Hsdp.
Qed.


End LoopBody.

Lemma candidate_without_string_ignored_witness :
  step obliging (websocket_handler_start obliging "/srv" 1000)
    (ws_message 1001
       {| type := TEXT;
          data := Some (JObj (<["type" := JStr "candidate"]> ∅)) |})
  = websocket_handler_start obliging "/srv" 1000.
Proof.
  apply candidate_without_string_ignored; [reflexivity|left; reflexivity].
Defined.

Lemma other_message_ignored_witness :
  step obliging (websocket_handler_start obliging "/srv" 1000)
    (ws_message 1001 (text_message [("type", JStr "ping")]))
  = websocket_handler_start obliging "/srv" 1000.
Proof.
  apply other_message_ignored. simpl.
  eexists. split; [reflexivity|]. split; vm_compute; discriminate.
Defined.

Lemma malformed_message_ends_handler_witness :
  let s := websocket_handler_start obliging "/srv" 1000 in
  step obliging s (ws_message 1001 unparsable_message)
  = set_status (Raised JSONDecodeError) s
  ∧ (∀ now' msg',
       step obliging (set_status (Raised JSONDecodeError) s)
         (ws_message now' msg')
       = set_status (Raised JSONDecodeError) s)
  ∧ step obliging (set_status (Raised JSONDecodeError) s) ws_end
    = set_status (Raised JSONDecodeError) s.
Proof.
  apply malformed_message_ends_handler; [reflexivity|].
  split; [reflexivity|]. left. split; reflexivity.
Defined.

(** C2 as stated fails: after a text message that is not JSON the
    handler has left the loop with [JSONDecodeError], and a candidate
    message that follows is not handled, while the same message in the
    session before it is. *)
Lemma unparsable_message_not_dropped :
  let s := websocket_handler_start obliging "/srv" 1000 in
  let s1 := step obliging s (ws_message 1001 unparsable_message) in
  status s = Receiving
  ∧ status s1 = Raised JSONDecodeError
  ∧ log (step obliging s1 (ws_message 1002 candidate_message)) = log s1
  ∧ log (step obliging s (ws_message 1002 candidate_message))
    = log s ++ [ RTCIceCandidate_new (JStr "0") (JNum 0)
                   (JStr "candidate:1 1 udp 1 192.0.2.1 9 typ host");
                 addIceCandidate ].
Proof. vm_compute. repeat split. Qed.


(** * Case analysis on a step *)

Lemma count_calls_app p l1 l2 :
  count_calls p (l1 ++ l2) = (count_calls p l1 + count_calls p l2)%nat.
Proof. unfold count_calls. by rewrite List.filter_app, length_app. Qed.

Ltac handler_unfold :=
  unfold new_calls, step, loop_body, cleanup, leave, on_offer, on_candidate,
    on_track, on_connectionstatechange, cancel_transcription_task, cancel,
    start_transcription_task, send_transcriptions_turn, deliver_cancel,
    do_call, when, try_except, from_option, bind, ret, raise, get_session,
    modify, set_task.

(** Case analysis on the innermost test that the goal still depends on. *)
Ltac case_inner :=
  match goal with
  | |- context [match ?x with _ => _ end] =>
      lazymatch x with
      | context [match _ with _ => _ end] => fail
      | _ => destruct x eqn:?
      end
  end.

Ltac handler_cases := handler_unfold; simpl; repeat (case_inner; simpl).

Ltac count_log :=
  rewrite ?count_calls_app; unfold count_calls; simpl; try lia.

Ltac drop_log :=
  rewrite <- ?app_assoc, ?drop_app_length, ?drop_all; simpl.

(** * The transcription task *)

Lemma transcription_text_cycle i :
  Some (transcription_text i) = TRANSCRIPTION_SAMPLES !! (i mod 8)%nat.
Proof.
  unfold transcription_text. change (length TRANSCRIPTION_SAMPLES) with 8%nat.
  destruct (lookup_lt_is_Some_2 TRANSCRIPTION_SAMPLES (i mod 8)%nat) as [x ->];
    [|done].
  change (length TRANSCRIPTION_SAMPLES) with 8%nat.
  apply Nat.mod_upper_bound. lia.
Qed.

Lemma msg_text_transcription i now :
  msg_text (transcription_msg i now) = Some (transcription_text i).
Proof.
  unfold msg_text, transcription_msg, dict_item.
  rewrite lookup_insert_ne, lookup_insert_eq by done. done.
Qed.

Lemma emitter_calls_lookup i nows k now :
  nows !! k = Some now →
  emitter_calls i nows !! (2 * k)%nat = Some (asyncio_sleep 3)
  ∧ emitter_calls i nows !! (2 * k + 1)%nat
    = Some (send_json (transcription_msg (i + k) now)).
Proof.
  revert i k. induction nows as [|now0 rest IH]; intros i k Hk; [done|].
  destruct k as [|k].
  - injection Hk as ->. rewrite Nat.add_0_r. done.
  - simpl in Hk. destruct (IH (S i) _ Hk) as [Hs Hm].
    replace (2 * S k)%nat with (S (S (2 * k))) by lia.
    replace (S (S (2 * k)) + 1)%nat with (S (S (2 * k + 1))) by lia.
    replace (i + S k)%nat with (S i + k)%nat by lia.
    done.
Qed.

Section Emitter.
Variable lib : library.

Lemma run_cons s e es : run lib s (e :: es) = run lib (step lib s e) es.
Proof. reflexivity. Qed.

Lemma turn_not_running h now s t :
  tasks s !! h = Some t → finished t || cancelling t = true →
  send_transcriptions_turn lib h now s = s.
Proof. intros Ht Hf. unfold send_transcriptions_turn. by rewrite Ht, Hf. Qed.

Lemma turns_not_running h nows s t :
  tasks s !! h = Some t → finished t || cancelling t = true →
  run lib s (task_turn h <$> nows) = s.
Proof.
  intros Ht Hf. induction nows as [|now rest IH]; [done|].
  rewrite fmap_cons, run_cons. simpl step.
  by rewrite (turn_not_running _ _ _ _ Ht Hf).
Qed.

(** One turn of a running task: what it adds to the log and what it
    leaves of the task. *)
Lemma turn_running h now s t :
  tasks s !! h = Some t → finished t = false → cancelling t = false →
  let s' := send_transcriptions_turn lib h now s in
  (raises lib (log s) (asyncio_sleep 3) = true
   ∧ log s' = log s ++ [asyncio_sleep 3]
   ∧ tasks s' !! h = Some (finish_task t))
  ∨ (raises lib (log s) (asyncio_sleep 3) = false
     ∧ raises lib (log s ++ [asyncio_sleep 3])
         (send_json (transcription_msg (idx t) now)) = true
     ∧ log s' = log s ++ [asyncio_sleep 3;
                          send_json (transcription_msg (idx t) now)]
     ∧ tasks s' !! h = Some (finish_task t))
  ∨ (raises lib (log s) (asyncio_sleep 3) = false
     ∧ raises lib (log s ++ [asyncio_sleep 3])
         (send_json (transcription_msg (idx t) now)) = false
     ∧ log s' = log s ++ [asyncio_sleep 3;
                          send_json (transcription_msg (idx t) now)]
     ∧ tasks s' !! h = Some (advance_task t)).
Proof.
  intros Ht Hf Hc. unfold send_transcriptions_turn. rewrite Ht, Hf, Hc.
  simpl. unfold do_call.
  assert (Hlen : (h < length (tasks s))%nat) by by eapply lookup_lt_Some.
  destruct (raises lib (log s) (asyncio_sleep 3)) eqn:E1; simpl.
  - left. by rewrite list_lookup_insert_eq.
  - right.
    destruct (raises lib (log s ++ [asyncio_sleep 3]) _) eqn:E2; simpl;
      [left|right]; rewrite <- app_assoc, list_lookup_insert_eq; done.
Qed.

Lemma turns_prefix nows : ∀ s h t,
  tasks s !! h = Some t → finished t = false → cancelling t = false →
  ∃ sent, log (run lib s (task_turn h <$> nows)) = log s ++ sent
          ∧ sent `prefix_of` emitter_calls (idx t) nows.
Proof.
  induction nows as [|now rest IH]; intros s h t Ht Hf Hc.
  - exists []. by rewrite app_nil_r.
  - rewrite fmap_cons, run_cons. simpl step.
    destruct (turn_running h now s t Ht Hf Hc)
      as [(_ & Hl & Ht') | [(_ & _ & Hl & Ht') | (_ & _ & Hl & Ht')]].
    + rewrite (turns_not_running _ _ _ _ Ht') by done.
      exists [asyncio_sleep 3]. split; [done|].
      by exists (send_json (transcription_msg (idx t) now)
                   :: emitter_calls (S (idx t)) rest).
    + rewrite (turns_not_running _ _ _ _ Ht') by done.
      eexists. split; [done|]. by exists (emitter_calls (S (idx t)) rest).
    + destruct (IH _ _ _ Ht') as (sent & Hs & Hp); [by rewrite ?Hf, ?Hc..|].
      exists (asyncio_sleep 3 :: send_json (transcription_msg (idx t) now) :: sent).
      split.
      * rewrite Hs, Hl, <- app_assoc. done.
      * simpl. by do 2 apply (prefix_cons _).
Qed.

Lemma turns_accepted nows : ∀ s h t,
  tasks s !! h = Some t → finished t = false → cancelling t = false →
  accepts lib (log s) (emitter_calls (idx t) nows) →
  log (run lib s (task_turn h <$> nows))
  = log s ++ emitter_calls (idx t) nows.
Proof.
  induction nows as [|now rest IH]; intros s h t Ht Hf Hc Hacc.
  - simpl. by rewrite app_nil_r.
  - rewrite fmap_cons, run_cons. simpl step.
    simpl in Hacc. destruct Hacc as (H1 & H2 & Hacc).
    destruct (turn_running h now s t Ht Hf Hc)
      as [(E & _) | [(_ & E & _) | (_ & _ & Hl & Ht')]]; [congruence..|].
    rewrite (IH _ _ _ Ht'); [|by rewrite ?Hf, ?Hc..|].
    + rewrite Hl, <- app_assoc. done.
    + rewrite Hl. simpl. by rewrite <- app_assoc in Hacc.
Qed.

End Emitter.

(** * A transcription task among the other events *)

Section Interleaving.
Variable lib : library.

Lemma request_cancel_rests t :
  resting (request_cancel t) = true ∧ idx (request_cancel t) = idx t.
Proof. unfold request_cancel, resting. by destruct t as [i c []]. Qed.

Lemma lookup_request_cancel (l : list task) n h t :
  l !! h = Some t →
  ∃ t', alter request_cancel n l !! h = Some t'
        ∧ (resting t = true → resting t' = true)
        ∧ idx t' = idx t.
Proof.
  intros Ht. destruct (decide (n = h)) as [->|Hne].
  - rewrite list_lookup_alter_eq, Ht. eexists. split; [done|].
    destruct (request_cancel_rests t) as [-> ->]. done.
  - rewrite list_lookup_alter_ne by done. eauto.
Qed.

Lemma lookup_set_task (l : list task) h' h t0 t x :
  l !! h' = Some t0 → l !! h = Some t →
  <[h' := x]> l !! h = Some (if decide (h' = h) then x else t)
  ∧ (h' = h → t0 = t).
Proof.
  intros Ht0 Ht. destruct (decide (h' = h)) as [->|Hne].
  - rewrite list_lookup_insert_eq by by eapply lookup_lt_Some.
    split; [done|]. congruence.
  - rewrite list_lookup_insert_ne by done. done.
Qed.

(** No event gives a task a new cursor, except a turn of the task
    itself, and none sets a resting task running again. *)
Lemma step_task s e h t :
  tasks s !! h = Some t →
  ∃ t', tasks (step lib s e) !! h = Some t'
        ∧ (resting t = true → resting t' = true)
        ∧ (resting t = true ∨ is_turn_of h e = false → idx t' = idx t).
Proof.
  intros Ht. pose proof (lookup_lt_Some _ _ _ Ht) as Hlt.
  destruct e as [now [ty d]| |state|kind|h' now|h']; handler_cases;
    rewrite ?(lookup_app_l _ _ _ Hlt); eauto.
  all: try (destruct (lookup_request_cancel _ n _ _ Ht) as (t' & ? & ? & ?);
            by eauto).
  all: match goal with
       | H : tasks _ !! ?k = Some ?t0 |- context [<[?k := ?x]> _] =>
           destruct (lookup_set_task _ _ _ _ _ x H Ht) as [-> Heq];
           destruct (decide (k = h)) as [->|Hne];
           [specialize (Heq eq_refl); subst t0|by eauto]
       end.
  all: eexists; split; [done|]; unfold resting in *; simpl.
  all: split; [done|]; try done.
  intros [? | Hb]; [congruence|]. by apply bool_decide_eq_false in Hb.
Qed.

(** A turn of a resting task makes no call. *)
Lemma turn_resting s h now t :
  tasks s !! h = Some t → resting t = true →
  new_calls lib s (task_turn h now) = [].
Proof.
  intros Ht Hr. unfold new_calls. simpl step.
  rewrite (turn_not_running lib h now s t Ht Hr). apply drop_all.
Qed.

Lemma task_calls_resting es : ∀ s h t,
  tasks s !! h = Some t → resting t = true →
  task_calls lib h s es = [].
Proof.
  induction es as [|e es IH]; intros s h t Ht Hr; [done|].
  simpl task_calls.
  destruct (step_task s e h t Ht) as (t' & Ht' & Hr' & _).
  rewrite (IH _ _ _ Ht' (Hr' Hr)), app_nil_r.
  destruct e; try done. simpl. case_bool_decide; [subst|done].
  by eapply turn_resting.
Qed.

Lemma task_calls_prefix es : ∀ s h t,
  tasks s !! h = Some t → resting t = false →
  task_calls lib h s es `prefix_of` emitter_calls (idx t) (turn_times h es).
Proof.
  induction es as [|e es IH]; intros s h t Ht Hr; [done|].
  assert (Hf : finished t = false ∧ cancelling t = false)
    by (unfold resting in Hr; by destruct (finished t), (cancelling t)).
  destruct Hf as [Hf Hc].
  simpl task_calls. destruct (is_turn_of h e) eqn:Hturn.
  - destruct e as [| | | |h' now|]; try done.
    simpl in Hturn. apply bool_decide_eq_true in Hturn. subst h'.
    simpl turn_times. rewrite bool_decide_eq_true_2 by done.
    unfold new_calls. simpl step.
    destruct (turn_running lib h now s t Ht Hf Hc)
      as [(_ & Hl & Ht') | [(_ & _ & Hl & Ht') | (_ & _ & Hl & Ht')]];
      rewrite Hl, drop_app_length.
    + rewrite (task_calls_resting es _ _ _ Ht') by done.
      by exists (send_json (transcription_msg (idx t) now)
                   :: emitter_calls (S (idx t)) (turn_times h es)).
    + rewrite (task_calls_resting es _ _ _ Ht') by done.
      by exists (emitter_calls (S (idx t)) (turn_times h es)).
    + simpl. do 2 apply (prefix_cons _).
      apply (IH _ _ _ Ht'). unfold resting. simpl. by rewrite Hf, Hc.
  - destruct (step_task s e h t Ht) as (t' & Ht' & _ & Hidx).
    rewrite <- Hidx by by right.
    replace (turn_times h (e :: es)) with (turn_times h es).
    + simpl. destruct (resting t') eqn:Hr'.
      * rewrite (task_calls_resting es _ _ _ Ht' Hr'). apply prefix_nil.
      * by apply IH.
    + destruct e; try done. simpl in *. by rewrite Hturn.
Qed.

End Interleaving.

Section TranscriptionRun.
Variable lib : library.

(** C4: the calls that successive turns of a newly created transcription
    task make are the first ones of the sequence "sleep 3 seconds, send
    message 0, sleep 3 seconds, send message 1, ..." (all of them when no
    call raises), in which the text of message [i] is the canned sentence
    of index [i mod 8] of the pool of 8; message 0 bears the first
    sentence. The task stops at the first call that raises. The same
    holds of the calls of its turns when other events of the session
    come between them, a cancellation of the task among them. *)
Theorem transcription_cycle (s : session) (h : nat) (nows : list Q) :
  tasks s !! h = Some new_task →
  let s' := run lib s (task_turn h <$> nows) in
  (∃ sent, log s' = log s ++ sent ∧ sent `prefix_of` emitter_calls 0 nows)
  ∧ (accepts lib (log s) (emitter_calls 0 nows) →
     log s' = log s ++ emitter_calls 0 nows)
  ∧ (∀ (i : nat) now, nows !! i = Some now →
       emitter_calls 0 nows !! (2 * i)%nat = Some (asyncio_sleep 3)
       ∧ emitter_calls 0 nows !! (2 * i + 1)%nat
         = Some (send_json (transcription_msg i now))
       ∧ ∃ text, msg_text (transcription_msg i now) = Some text
                 ∧ TRANSCRIPTION_SAMPLES !! (i mod 8)%nat = Some text)
  ∧ length TRANSCRIPTION_SAMPLES = 8%nat
  ∧ (∀ now, msg_text (transcription_msg 0 now)
            = Some "Patient presents with mild respiratory symptoms.")
  ∧ (∀ es, task_calls lib h s es
             `prefix_of` emitter_calls 0 (turn_times h es)).
Proof.
  intros Ht. split_and!.
  - by apply (turns_prefix lib nows s h new_task).
  - intros Hacc. by apply (turns_accepted lib nows s h new_task).
  - intros i now Hi. destruct (emitter_calls_lookup 0 nows i now Hi) as [Hs Hm].
    split_and!; [done..|].
    exists (transcription_text i). split; [apply msg_text_transcription|].
    symmetry. apply transcription_text_cycle.
  - done.
  - intros now. by rewrite msg_text_transcription.
  - intros es. by apply (task_calls_prefix lib es s h new_task).
Qed.

End TranscriptionRun.

Lemma transcription_cycle_witness :
  let s := step obliging (websocket_handler_start obliging "/srv" 1000)
             (ws_message 1001 offer_message) in
  let nows := [1004; 1007; 1010; 1013; 1016; 1019; 1022; 1025; 1028]%Q in
  log (run obliging s (task_turn 0 <$> nows)) = log s ++ emitter_calls 0 nows.
Proof.
  intros s nows.
  destruct (transcription_cycle obliging s 0 nows eq_refl) as (_ & H & _).
  apply H. simpl. repeat split.
Defined.

(** * The session from accept to teardown *)

Section Lifecycle.
Variable lib : library.

Lemma step_log s e : log (step lib s e) = log s ++ new_calls lib s e.
Proof.
  destruct e as [now [ty d]| |state|kind|h now|h];
    handler_cases; drop_log; rewrite ?app_nil_r; done.
Qed.





Lemma run_count p (bound : event → nat) :
  (∀ s e, (count_calls p (new_calls lib s e) ≤ bound e)%nat) →
  ∀ es s, (count_calls p (log (run lib s es))
           ≤ count_calls p (log s) + sum_list (bound <$> es))%nat.
Proof.
  intros Hstep. induction es as [|e es IH]; intros s.
  - simpl. lia.
  - rewrite run_cons. etransitivity; [apply IH|].
    rewrite step_log, count_calls_app, fmap_cons. simpl.
    specialize (Hstep s e). lia.
Qed.


(** The statements before the loop make no other calls than these. *)
Lemma start_log here now :
  log (websocket_handler_start lib here now)
    `prefix_of` [ws_prepare; RTCPeerConnection_new; makedirs (recordings_dir here)]
  ∧ (status (websocket_handler_start lib here now) = Receiving →
     log (websocket_handler_start lib here now)
     = [ws_prepare; RTCPeerConnection_new; makedirs (recordings_dir here)]).
Proof.
  unfold websocket_handler_start. handler_cases; split; try done.
  - by exists [RTCPeerConnection_new; makedirs (recordings_dir here)].
  - by exists [makedirs (recordings_dir here)].
Qed.

Lemma start_counts here now p :
  p ws_prepare = false → p RTCPeerConnection_new = false →
  (∀ d, p (makedirs d) = false) →
  count_calls p (log (websocket_handler_start lib here now)) = 0%nat.
Proof.
  intros H1 H2 H3. unfold websocket_handler_start.
  handler_cases; unfold count_calls; simpl; rewrite ?H1, ?H2, ?H3; done.
Qed.




Lemma step_recording_path s e :
  recording_path (step lib s e) = recording_path s.
Proof.
  destruct e as [now [ty d]| |state|kind|h now|h]; handler_cases; done.
Qed.

Lemma step_recorder_path s e path :
  MediaRecorder_new path ∈ new_calls lib s e → path = recording_path s.
Proof.
  destruct e as [now [ty d]| |state|kind|h now|h];
    handler_cases; drop_log; rewrite ?drop_all; intros Hin; set_unfold;
    destruct_or?; simplify_eq; done.
Qed.

Lemma run_recorder_path es : ∀ s path,
  (∀ p, MediaRecorder_new p ∈ log s → p = recording_path s) →
  MediaRecorder_new path ∈ log (run lib s es) →
  path = recording_path s.
Proof.
  induction es as [|e es IH]; intros s path Hs Hin; [by apply Hs|].
  rewrite run_cons in Hin. apply IH in Hin.
  - by rewrite step_recording_path in Hin.
  - intros p. rewrite step_log, step_recording_path, elem_of_app.
    intros [Hp | Hp]; [by apply Hs | by eapply step_recorder_path].
Qed.


End Lifecycle.


(** * The recording file *)

Lemma string_length_app (s t : string) :
  String.length (s +:+ t) = (String.length s + String.length t)%nat.
Proof. induction s as [|c s IH]; simpl; [done|]. by rewrite IH. Qed.

Lemma string_app_inj_r (s1 s2 t : string) :
  s1 +:+ t = s2 +:+ t → s1 = s2.
Proof.
  revert s2. induction s1 as [|c s1 IH]; intros [|c2 s2] H.
  - done.
  - apply (f_equal String.length) in H.
    rewrite !string_length_app in H. simpl in H. lia.
  - apply (f_equal String.length) in H.
    rewrite !string_length_app in H. simpl in H. lia.
  - simpl in H. injection H as -> H. f_equal. by apply IH.
Qed.

Lemma path_join_inj (a b1 b2 : string) :
  starts_with_slash b1 = false → starts_with_slash b2 = false →
  path_join a b1 = path_join a b2 → b1 = b2.
Proof.
  unfold path_join. intros -> ->.
  destruct (_ || _); intros H.
  - by apply String.app_inj in H.
  - by do 2 apply String.app_inj in H.
Qed.

Lemma recording_path_at_inj (here : string) (now1 now2 : Q) :
  recording_path_at here now1 = recording_path_at here now2 ↔
  py_int now1 = py_int now2.
Proof.
  unfold recording_path_at. split; [|by intros ->].
  intros H. apply path_join_inj in H; [|done..].
  apply String.app_inj, string_app_inj_r in H.
  by apply pretty_Z_inj in H.
Qed.

Section Recording.
Variable lib : library.

Lemma start_recording_path here now :
  recording_path (websocket_handler_start lib here now)
  = recording_path_at here now.
Proof. unfold websocket_handler_start. handler_cases; done. Qed.

(** C9, as the program has it: the handler makes the directory
    [recordings] next to the script ([exist_ok=True]) before the loop;
    every recorder of a session is created on the one path
    [recordings/recording_<epoch>.mp4], where [<epoch>] is the whole
    number of seconds of the clock reading at accept; and two sessions
    have the same path exactly when their readings have the same whole
    number of seconds. *)
Theorem recording_file (here : string) (now : Q) (es : list event) :
  let s0 := websocket_handler_start lib here now in
  recording_path s0
  = path_join (path_join here "recordings")
      ("recording_" +:+ pretty (py_int now) +:+ ".mp4")
  ∧ (status s0 = Receiving →
     log s0 = [ ws_prepare; RTCPeerConnection_new;
                makedirs (path_join here "recordings") ])
  ∧ (∀ path, MediaRecorder_new path ∈ log (run lib s0 es) →
             path = recording_path s0)
  ∧ (∀ now', recording_path (websocket_handler_start lib here now')
             = recording_path s0
             ↔ py_int now' = py_int now).
Proof.
  split_and!.
  - apply start_recording_path.
  - apply start_log.
  - intros path. apply run_recorder_path. intros p Hp.
    destruct (start_log lib here now) as [Hpre _].
    pose proof (elem_of_prefix _ _ _ Hp Hpre) as Hin.
    set_unfold. by destruct_or?.
  - intros now'. rewrite !start_recording_path. apply recording_path_at_inj.
Qed.

End Recording.

(** C9 as stated fails: two sessions accepted within the same second, at
    1000.2 and at 1000.7, record to the same file. *)
Lemma same_second_same_recording :
  let s1 := websocket_handler_start obliging "/srv" (5001 # 5) in
  let s2 := websocket_handler_start obliging "/srv" (10007 # 10) in
  ¬ (5001 # 5 == 10007 # 10)%Q
  ∧ status s1 = Receiving ∧ status s2 = Receiving
  ∧ recording_path s1 = "/srv/recordings/recording_1000.mp4"
  ∧ recording_path s2 = "/srv/recordings/recording_1000.mp4".
Proof. split; [by vm_compute|]. vm_compute. repeat split. Qed.


(** * More on the synthetic audio source *)

Section AudioMore.
Variable np_sin : float → float.

Lemma recv_frame_clock self now now' :
  (recv np_sin self now).1.2 = (recv np_sin self now').1.2
  ∧ (recv np_sin self now).2 = (recv np_sin self now').2.
Proof. done. Qed.

(** The frames do not depend on the clock: calls that come late or early
    give the same frames, none dropped and none repeated. *)
Theorem frames_whatever_the_clock (self : SyntheticAudioTrack)
    (nows nows' : list Q) :
  length nows = length nows' →
  recv_many np_sin self nows = recv_many np_sin self nows'.
Proof.
  revert self nows'. induction nows as [|now rest IH];
    intros self [|now' rest'] Hlen; try done.
  rewrite !recv_many_cons.
  destruct (recv_frame_clock self now now') as [-> ->].
  f_equal. apply IH. by injection Hlen.
Qed.


End AudioMore.

Lemma frames_whatever_the_clock_witness :
  recv_many (λ x, x) (SyntheticAudioTrack_init 0) [0%Q; 1%Q]
  = recv_many (λ x, x) (SyntheticAudioTrack_init 0) [5%Q; 2%Q].
Proof. by apply (frames_whatever_the_clock (λ x, x)). Defined.

(** * More on the receive loop *)

(** The tests on [recorder], as equations. *)
Ltac decide_hyps :=
  repeat match goal with
         | H : bool_decide _ = true |- _ => apply bool_decide_eq_true in H
         | H : bool_decide _ = false |- _ => apply bool_decide_eq_false in H
         | H : is_Some _ |- _ => destruct H as [? H]
         | H : ¬ is_Some _ |- _ => rewrite <- eq_None_not_Some in H
         end.

Section LoopMore.
Variable lib : library.


(** A candidate that the library refuses ends the handler: the
    exception of [RTCIceCandidate(...)] or of [addIceCandidate] leaves
    the loop, nothing is torn down and no later message is handled. *)
Theorem candidate_refused (s : session) (now : Q) (m : gmap string json) :
  status s = Receiving →
  m !! "type" = Some (JStr "candidate") →
  truthy (candidate_field m) = true →
  ¬ accepts lib (log s) (candidate_calls m) →
  let s' := step lib s (ws_message now {| type := TEXT; data := Some (JObj m) |}) in
  (∃ c, status s' = Raised (LibraryError c) ∧ c ∈ candidate_calls m)
  ∧ count_calls is_teardown_call (new_calls lib s
      (ws_message now {| type := TEXT; data := Some (JObj m) |})) = 0%nat
  ∧ (∀ now' msg', step lib s' (ws_message now' msg') = s').
Proof.
  intros Hst Htype Htruthy Hacc.
  assert (Hstep : ∃ c l, c ∈ candidate_calls m
      ∧ step lib s (ws_message now {| type := TEXT; data := Some (JObj m) |})
        = set_status (Raised (LibraryError c)) (set_log (log s ++ l) s)
      ∧ count_calls is_teardown_call l = 0%nat).
  { unfold step. rewrite Hst.
    unfold loop_body, on_candidate, bind, from_option, dict_get. simpl.
    rewrite Htype. simpl.
    fold (candidate_field m) (sdpMid_field m) (sdpMLineIndex_field m).
    rewrite Htruthy. simpl. unfold bind, do_call. simpl.
    destruct (raises lib (log s) _) eqn:E1; simpl.
    - eexists _, [_]. split; [|done]. set_solver.
    - destruct (raises lib (log s ++ _) addIceCandidate) eqn:E2; simpl.
      + eexists _, [_; _]. rewrite <- app_assoc. split; [|done]. set_solver.
      + destruct Hacc. simpl. done. }
  destruct Hstep as (c & l & Hc & Hs & Hl). cbv zeta.
  split_and!.
  - exists c. by rewrite Hs.
  - unfold new_calls. rewrite Hs. simpl. by rewrite drop_app_length.
  - intros now' msg'. by rewrite Hs.
Qed.



(** The end of the loop cancels the task if it is not done, then stops
    the recorder if there is one, then closes the peer connection, in
    this order and always as far as [pc.close()]: what [recorder.stop()]
    raises is caught, so the handler returns, unless [pc.close()] itself
    raises. *)
Theorem cleanup_reaches_close (s : session) (e : event) :
  status s = Receiving →
  is_loop_exit e = true →
  let s' := step lib s e in
  new_calls lib s e = cancel_calls s ++ stop_calls s ++ [pc_close]
  ∧ (status s' = Returned ∨ status s' = Raised (LibraryError pc_close)).
Proof.
  intros Hst Hexit. cbv zeta. unfold cancel_calls, stop_calls.
  destruct e as [now [ty d]| | | | |]; try discriminate;
    [destruct ty; try discriminate|];
    unfold new_calls, step; rewrite Hst; handler_unfold; simpl;
    repeat (case_inner; simpl); drop_log; simpl in *; try congruence;
    split; auto.
Qed.

(** A connection state [failed] or [closed] stops the recorder if there
    is one and then, when [recorder.stop()] returned, cancels the task if
    it is not done: the same two steps as at the end of the loop, in the
    other order. *)
Theorem connection_teardown_calls (s : session) (state : string) :
  state = "failed" ∨ state = "closed" →
  recorder s = None ∨ raises lib (log s) recorder_stop = false →
  new_calls lib s (connectionstatechange state)
  = stop_calls s ++ cancel_calls s.
Proof.
  intros Hstate Hok. unfold cancel_calls, stop_calls, task_done.
  handler_unfold. unfold task_done.
  destruct (recorder s) as [p|] eqn:Hrec;
    (destruct Hstate as [-> | ->]); simpl;
    (destruct Hok as [?|Hok]; [try done|rewrite ?Hok]); simpl;
    repeat (case_inner; simpl); drop_log; rewrite ?drop_all; simpl in *;
    decide_hyps; try congruence; done.
Qed.

(** In [on_connectionstatechange] nothing catches what [recorder.stop()]
    raises: the callback ends there and the transcription task is not
    cancelled. *)
Theorem stop_failure_skips_cancel (s : session) (state path : string) :
  state = "failed" ∨ state = "closed" →
  recorder s = Some path →
  raises lib (log s) recorder_stop = true →
  step lib s (connectionstatechange state)
  = set_log (log s ++ [recorder_stop]) s.
Proof.
  intros Hstate Hrec Hraise. simpl. unfold on_connectionstatechange.
  assert (String.eqb state "failed" || String.eqb state "closed" = true) as ->
    by (by destruct Hstate as [-> | ->]).
  unfold when, bind, get_session, do_call. rewrite Hrec. simpl.
  by rewrite Hraise.
Qed.

End LoopMore.

(** * More on the session *)

Lemma is_answer_answer sdp : is_answer (send_json (answer_msg sdp)) = true.
Proof. done. Qed.

Lemma is_answer_transcription i now :
  is_answer (send_json (transcription_msg i now)) = false.
Proof. done. Qed.

Lemma is_transcription_answer sdp :
  is_transcription (send_json (answer_msg sdp)) = false.
Proof. done. Qed.

Lemma count_calls_cons p c l :
  count_calls p (c :: l)
  = ((if p c then 1 else 0) + count_calls p l)%nat.
Proof. unfold count_calls. simpl. by destruct (p c). Qed.

Lemma count_calls_nil p : count_calls p [] = 0%nat.
Proof. done. Qed.

Section SessionMore.
Variable lib : library.

Lemma step_recorder_kept s e path :
  recorder s = Some path → recorder (step lib s e) = Some path.
Proof.
  intros Hrec.
  destruct e as [now [ty d]| |state|kind|h now|h]; handler_cases;
    decide_hyps; congruence.
Qed.

(** The variable [recorder] is never set back to [None]: a recorder,
    once created, is the session's recorder whatever follows, a teardown
    included. *)
Theorem recorder_kept (s : session) (es : list event) (path : string) :
  recorder s = Some path → recorder (run lib s es) = Some path.
Proof.
  revert s. induction es as [|e es IH]; intros s Hrec; [done|].
  rewrite run_cons. by apply IH, step_recorder_kept.
Qed.

Lemma step_no_recorder_new s e path :
  recorder s = Some path →
  count_calls is_recorder_new (new_calls lib s e) = 0%nat.
Proof.
  intros Hrec.
  destruct e as [now [ty d]| |state|kind|h now|h]; handler_cases;
    decide_hyps; try congruence; drop_log; rewrite ?drop_all; done.
Qed.

(** Once there is a recorder, no other is created: the tracks that come
    later are added to the same recorder. *)
Theorem no_second_recorder (s : session) (es : list event) (path : string) :
  recorder s = Some path →
  count_calls is_recorder_new (log (run lib s es))
  = count_calls is_recorder_new (log s).
Proof.
  revert s. induction es as [|e es IH]; intros s Hrec; [done|].
  rewrite run_cons, IH by by apply step_recorder_kept.
  rewrite step_log, count_calls_app, (step_no_recorder_new s e path Hrec).
  lia.
Qed.

Lemma step_recorder_inv s e : recorder_inv s → recorder_inv (step lib s e).
Proof.
  unfold recorder_inv. intros [Hnone Hsome].
  rewrite step_recording_path, step_log.
  destruct (recorder s) as [p|] eqn:Hrec.
  - rewrite (step_recorder_kept s e p Hrec). split; [done|].
    intros path [= <-]. destruct (Hsome p eq_refl) as [Hp Hin].
    split; [done|]. clear Hsome. set_solver.
  - specialize (Hnone eq_refl). clear Hsome.
    destruct e as [now [ty d]| |state|kind|h now|h]; handler_cases;
      decide_hyps; try congruence;
      drop_log; rewrite ?drop_all, ?app_nil_r;
      (split;
       [ intros Hn; try discriminate Hn;
         rewrite ?count_calls_app; unfold count_calls in *; simpl; lia
       | intros path Hp;
         first [ congruence
               | injection Hp as <-; split; [done|set_solver] ] ]).
Qed.

Lemma run_recording_path_at es here now :
  recording_path (run lib (websocket_handler_start lib here now) es)
  = recording_path_at here now.
Proof.
  rewrite <- (start_recording_path lib here now).
  generalize (websocket_handler_start lib here now).
  induction es as [|e es IH]; intros s; [done|].
  by rewrite run_cons, IH, step_recording_path.
Qed.

Lemma run_recorder_inv es : ∀ s, recorder_inv s → recorder_inv (run lib s es).
Proof.
  induction es as [|e es IH]; intros s Hs; [done|].
  rewrite run_cons. by apply IH, step_recorder_inv.
Qed.

Lemma start_recorder_inv here now :
  recorder_inv (websocket_handler_start lib here now).
Proof.
  split.
  - intros _. by apply start_counts.
  - unfold websocket_handler_start. handler_cases; done.
Qed.

(** No method of the recorder is called before the recorder is created:
    at every point of a session, while the variable [recorder] is [None]
    the log has no [addTrack], [start] or [stop] of a recorder, and when
    it is a recorder, that recorder was created, on the session's
    recording path. *)
Theorem recorder_created_before_use (here : string) (now : Q)
    (es : list event) :
  let s := run lib (websocket_handler_start lib here now) es in
  (recorder s = None → count_calls is_recorder_method (log s) = 0%nat)
  ∧ (∀ path, recorder s = Some path →
       path = recording_path_at here now ∧ MediaRecorder_new path ∈ log s).
Proof.
  destruct (run_recorder_inv es _ (start_recorder_inv here now)) as [H1 H2].
  split; [done|]. intros path Hp. destruct (H2 path Hp) as [-> Hin].
  split; [|done]. by rewrite run_recording_path_at.
Qed.

Lemma step_recorder_start s e :
  (count_calls is_recorder_start (new_calls lib s e)
   ≤ if is_video_track e then 1 else 0)%nat.
Proof.
  destruct e as [now [ty d]| |state|kind|h now|h]; simpl is_video_track;
    handler_cases; drop_log; count_log.
Qed.

Lemma step_recorder_start_exact s e :
  (∀ hist c, raises lib hist c = false) →
  count_calls is_recorder_start (new_calls lib s e)
  = if is_video_track e then 1%nat else 0%nat.
Proof.
  intros Hnr.
  destruct e as [now [ty d]| |state|kind|h now|h]; simpl is_video_track;
    handler_cases; drop_log; count_log.
  all: match goal with H : raises _ _ _ = true |- _ => by rewrite Hnr in H end.
Qed.

Lemma run_count_exact p (f : event → nat) :
  (∀ s e, count_calls p (new_calls lib s e) = f e) →
  ∀ es s, count_calls p (log (run lib s es))
          = (count_calls p (log s) + sum_list (f <$> es))%nat.
Proof.
  intros Hstep. induction es as [|e es IH]; intros s.
  - simpl. lia.
  - rewrite run_cons, IH, step_log, count_calls_app, fmap_cons, Hstep.
    simpl. lia.
Qed.

Lemma sum_list_filter (p : event → bool) es :
  sum_list ((λ e, if p e then 1%nat else 0%nat) <$> es)
  = length (List.filter p es).
Proof.
  induction es as [|e es IH]; [done|].
  rewrite fmap_cons. simpl. destruct (p e); simpl; lia.
Qed.

(** [recorder.start()] is called for video tracks only, once per video
    track at most: a session that gets only audio tracks creates its
    recorder and never starts it. When no call raises, it is called once
    for every video track, a second video track included. *)
Theorem recorder_started_by_video (here : string) (now : Q)
    (es : list event) :
  let s := run lib (websocket_handler_start lib here now) es in
  (count_calls is_recorder_start (log s) ≤ video_tracks es)%nat
  ∧ ((∀ hist c, raises lib hist c = false) →
     count_calls is_recorder_start (log s) = video_tracks es).
Proof.
  cbv zeta. split.
  - pose proof (run_count lib is_recorder_start _ step_recorder_start es
                  (websocket_handler_start lib here now)) as H.
    rewrite sum_list_filter, start_counts in H by done. exact H.
  - intros Hnr.
    rewrite (run_count_exact is_recorder_start _
               (λ s e, step_recorder_start_exact s e Hnr)).
    by rewrite sum_list_filter, start_counts.
Qed.

Lemma cancel_only_current s e h :
  task_cancel h ∈ new_calls lib s e → transcription_task s = Some h.
Proof.
  destruct e as [now [ty d]| |state|kind|h' now|h'];
    handler_cases; drop_log; rewrite ?drop_all; intros Hin; set_unfold;
    destruct_or?; simplify_eq; done.
Qed.

Lemma last_handle_length (ts ts' : list task) :
  length ts' = length ts → last_handle ts' = last_handle ts.
Proof. unfold last_handle. by intros ->. Qed.

Lemma last_handle_snoc (ts : list task) t :
  last_handle (ts ++ [t]) = Some (length ts).
Proof. unfold last_handle. rewrite length_app. simpl. by rewrite Nat.add_1_r. Qed.

Lemma step_tasks_inv s e : tasks_inv s → tasks_inv (step lib s e).
Proof.
  unfold tasks_inv. intros (Hlast & Hans & Htr).
  destruct e as [now [ty d]| |state|kind|h now|h]; handler_cases;
    repeat match goal with
           | H : tasks s !! _ = Some _ |- _ => apply lookup_lt_Some in H
           end;
    rewrite ?last_handle_snoc,
      ?(last_handle_length _ _ (length_alter _ _ _)),
      ?(last_handle_length _ _ (length_insert _ _ _)),
      ?length_app, ?length_alter, ?length_insert,
      ?count_calls_app, ?count_calls_cons, ?count_calls_nil,
      ?is_answer_answer, ?is_answer_transcription, ?is_transcription_answer;
    simpl;
    (split; [congruence|]; split;
     [ lia | intros H0; try lia; specialize (Htr H0); lia ]).
Qed.

Lemma run_tasks_inv es : ∀ s, tasks_inv s → tasks_inv (run lib s es).
Proof.
  induction es as [|e es IH]; intros s Hs; [done|].
  rewrite run_cons. by apply IH, step_tasks_inv.
Qed.

Lemma start_tasks_inv here now :
  tasks_inv (websocket_handler_start lib here now).
Proof.
  unfold tasks_inv. split_and!.
  - unfold websocket_handler_start. handler_cases; done.
  - unfold websocket_handler_start. handler_cases; lia.
  - intros _. by apply start_counts.
Qed.

(** The variable [transcription_task] is always the task created last,
    and a teardown cancels that task only: a task that a later offer has
    replaced is never cancelled. *)
Theorem only_last_task_cancelled (here : string) (now : Q)
    (es : list event) :
  let s := run lib (websocket_handler_start lib here now) es in
  transcription_task s = last_handle (tasks s)
  ∧ (∀ e h, task_cancel h ∈ new_calls lib s e → S h = length (tasks s)).
Proof.
  cbv zeta.
  destruct (run_tasks_inv es _ (start_tasks_inv here now)) as (Hlast & _).
  split; [done|]. intros e h Hin. apply cancel_only_current in Hin.
  rewrite Hlast in Hin. unfold last_handle in Hin.
  destruct (length _); congruence.
Qed.

Lemma step_answers s e :
  (count_calls is_answer (new_calls lib s e)
   ≤ if is_offer_event e then 1 else 0)%nat.
Proof.
  destruct e as [now [ty d]| |state|kind|h now|h]; simpl is_offer_event;
    handler_cases; drop_log;
    rewrite ?drop_all, ?count_calls_cons, ?count_calls_nil,
      ?is_answer_answer, ?is_answer_transcription;
    simpl; lia.
Qed.

(** The server answers offers only and transcribes after an answer only:
    at every point of a session there are no more answers sent than
    offers received, no more transcription tasks than answers sent, and
    no transcription message unless an answer was sent before. *)
Theorem answers_and_transcriptions (here : string) (now : Q)
    (es : list event) :
  let s := run lib (websocket_handler_start lib here now) es in
  (count_calls is_answer (log s) ≤ offers es)%nat
  ∧ (length (tasks s) ≤ count_calls is_answer (log s))%nat
  ∧ (count_calls is_answer (log s) = 0%nat →
     count_calls is_transcription (log s) = 0%nat).
Proof.
  cbv zeta.
  destruct (run_tasks_inv es _ (start_tasks_inv here now)) as (_ & Hans & Htr).
  split_and!.
  - pose proof (run_count lib is_answer _ step_answers es
                  (websocket_handler_start lib here now)) as H.
    rewrite sum_list_filter, start_counts in H by done. exact H.
  - done.
  - intros H0. apply Htr. lia.
Qed.


Lemma cancel_rests s e h :
  task_cancel h ∈ new_calls lib s e →
  ∃ t', tasks (step lib s e) !! h = Some t' ∧ resting t' = true.
Proof.
  destruct e as [now [ty d]| |state|kind|h' now|h'];
    handler_cases; drop_log; rewrite ?drop_all; intros Hin; set_unfold;
    destruct_or?; simplify_eq; try done.
  all: match goal with
       | H : negb (task_done _ ?n) = true |- _ =>
           unfold task_done in H; simpl in H;
           destruct (tasks s !! n) as [t|] eqn:Ht; [|done];
           rewrite list_lookup_alter_eq, Ht; eexists; split; [done|];
           apply request_cancel_rests
       end.
Qed.

(** A task whose cancel was called makes no call afterwards, whatever
    events follow: once cancelled, [send_transcriptions] sends nothing
    more. *)
Theorem cancelled_task_sends_nothing (s : session) (e : event) (h : nat)
    (es : list event) :
  task_cancel h ∈ new_calls lib s e →
  task_calls lib h (step lib s e) es = [].
Proof.
  intros Hin. destruct (cancel_rests s e h Hin) as (t' & Ht' & Hr).
  by eapply task_calls_resting.
Qed.

(** When [ws.send_json] raises in a turn of a transcription task, the
    task ends for good: its cursor is not advanced and it makes no call
    afterwards, whatever events follow; it does not try the message
    again. *)
Theorem send_failure_ends_task (s : session) (h : nat) (t : task) (now : Q)
    (es : list event) :
  tasks s !! h = Some t →
  resting t = false →
  raises lib (log s) (asyncio_sleep 3) = false →
  raises lib (log s ++ [asyncio_sleep 3])
    (send_json (transcription_msg (idx t) now)) = true →
  let s' := step lib s (task_turn h now) in
  log s' = log s ++ [asyncio_sleep 3; send_json (transcription_msg (idx t) now)]
  ∧ tasks s' !! h = Some {| idx := idx t; cancelling := false; finished := true |}
  ∧ task_calls lib h s' es = [].
Proof.
  intros Ht Hr Hsleep Hsend. cbv zeta. simpl step.
  assert (Hf : finished t = false ∧ cancelling t = false)
    by (unfold resting in Hr; by destruct (finished t), (cancelling t)).
  destruct Hf as [Hf Hc].
  destruct (turn_running lib h now s t Ht Hf Hc)
    as [(E & _) | [(_ & _ & Hl & Ht') | (_ & E & _)]]; try congruence.
  split_and!; [done..|]. by eapply task_calls_resting.
Qed.

End SessionMore.


Lemma candidate_refused_witness :
  let lib := raising is_addIceCandidate in
  let s := websocket_handler_start lib "/srv" 1000 in
  let s' := step lib s (ws_message 1001 candidate_message) in
  status s' = Raised (LibraryError addIceCandidate)
  ∧ (∀ now' msg', step lib s' (ws_message now' msg') = s').
Proof.
  intros lib s s'.
  destruct (candidate_refused lib s 1001
              (list_to_map
                 [("type", JStr "candidate");
                  ("candidate", JStr "candidate:1 1 udp 1 192.0.2.1 9 typ host");
                  ("sdpMid", JStr "0"); ("sdpMLineIndex", JNum 0)]))
    as (_ & _ & H); [reflexivity..| |].
  - simpl. intros (_ & H & _). discriminate H.
  - split; [reflexivity|exact H].
Defined.



Lemma cleanup_reaches_close_witness :
  let lib := raising is_recorder_stop in
  let s := step lib
             (step lib (websocket_handler_start lib "/srv" 1000)
                (ws_message 1001 offer_message)) (track "video") in
  let s' := step lib s ws_end in
  new_calls lib s ws_end = [task_cancel 0; recorder_stop; pc_close]
  ∧ (status s' = Returned ∨ status s' = Raised (LibraryError pc_close)).
Proof.
  intros lib s s'. apply (cleanup_reaches_close lib s ws_end); reflexivity.
Defined.

Lemma connection_teardown_calls_witness :
  let s := step obliging
             (step obliging (websocket_handler_start obliging "/srv" 1000)
                (ws_message 1001 offer_message)) (track "video") in
  new_calls obliging s (connectionstatechange "closed")
  = [recorder_stop; task_cancel 0].
Proof.
  intros s.
  apply (connection_teardown_calls obliging s "closed");
    [by right|right; reflexivity].
Defined.

Lemma stop_failure_skips_cancel_witness :
  let lib := raising is_recorder_stop in
  let s := step lib
             (step lib (websocket_handler_start lib "/srv" 1000)
                (ws_message 1001 offer_message)) (track "video") in
  step lib s (connectionstatechange "failed")
  = set_log (log s ++ [recorder_stop]) s.
Proof.
  intros lib s.
  apply (stop_failure_skips_cancel lib s "failed"
           "/srv/recordings/recording_1000.mp4");
    [by left|reflexivity..].
Defined.

Lemma recorder_kept_witness :
  recorder
    (run obliging
       (step obliging (websocket_handler_start obliging "/srv" 1000)
          (track "audio"))
       [connectionstatechange "closed"; ws_end])
  = Some "/srv/recordings/recording_1000.mp4".
Proof. by apply recorder_kept. Defined.

Lemma cancelled_task_sends_nothing_witness :
  let s := step obliging (websocket_handler_start obliging "/srv" 1000)
             (ws_message 1001 offer_message) in
  task_calls obliging 0 (step obliging s (ws_message 1002 close_message))
    [task_turn 0 1004; task_cancelled 0; task_turn 0 1007]
  = [].
Proof.
  intros s. apply cancelled_task_sends_nothing. vm_compute. left.
Defined.

Lemma send_failure_ends_task_witness :
  let lib := raising is_transcription in
  let s := step lib (websocket_handler_start lib "/srv" 1000)
             (ws_message 1001 offer_message) in
  let s' := step lib s (task_turn 0 1004) in
  log s' = log s ++ [asyncio_sleep 3; send_json (transcription_msg 0 1004)]
  ∧ tasks s' !! 0%nat
    = Some {| idx := 0; cancelling := false; finished := true |}
  ∧ task_calls lib 0 s' [task_turn 0 1007; task_turn 0 1010] = [].
Proof.
  intros lib s s'.
  apply (send_failure_ends_task lib s 0 new_task 1004); reflexivity.
Defined.

Lemma no_second_recorder_witness :
  let s := step obliging (websocket_handler_start obliging "/srv" 1000)
             (track "audio") in
  count_calls is_recorder_new
    (log (run obliging s [track "video"; track "audio"; ws_end]))
  = count_calls is_recorder_new (log s).
Proof. intros s. by eapply no_second_recorder. Defined.
